(** * Xhpc relocation planner (src/Xhpc/relocate.py) in Rocq

    A shallow embedding of the scratch-relocation planner of Xhpc.
    Python strings are [String.string]; Python sets are duplicate-free
    lists read up to membership; the [args] dictionary that every function
    mutates is a record threaded through the functions; the filesystem
    probes ([isfile], [isdir], [os.path.abspath]) are parameters. *)

From Stdlib Require Import String Ascii List Bool Arith Lia.
From Stdlib Require Import Sorting.Mergesort Sorting.Sorted Sorting.Permutation.
From Stdlib Require Import Orders NArith.
Import ListNotations.
Open Scope list_scope.
Open Scope string_scope.

(** ** Python string primitives *)

(** Python's [a in b] on strings: [a] occurs in [b] (the empty string
    occurs everywhere). *)
Fixpoint contains (sub s : string) : bool :=
  String.prefix sub s ||
  match s with
  | EmptyString => false
  | String _ s' => contains sub s'
  end.

Definition sep : ascii := "/"%char.

(** [p[:p.rfind('/') + 1]]: the prefix of [p] up to and including its last
    separator, or the empty string when [p] has none. *)
Fixpoint head_to_last_sep (p : string) : string :=
  match p with
  | EmptyString => EmptyString
  | String c rest =>
      match head_to_last_sep rest with
      | EmptyString => if Ascii.eqb c sep then String c EmptyString else EmptyString
      | h => String c h
      end
  end.

Fixpoint all_sep (s : string) : bool :=
  match s with
  | EmptyString => true
  | String c r => Ascii.eqb c sep && all_sep r
  end.

Fixpoint drop_sep (l : list ascii) : list ascii :=
  match l with
  | c :: r => if Ascii.eqb c sep then drop_sep r else l
  | [] => []
  end.

(** [s.rstrip('/')] *)
Definition rstrip_sep (s : string) : string :=
  string_of_list_ascii (rev (drop_sep (rev (list_ascii_of_string s)))).

(** [posixpath.dirname]:
<<
    i = p.rfind(sep) + 1
    head = p[:i]
    if head and head != sep*len(head):
        head = head.rstrip(sep)
    return head
>> *)
Definition dirname (p : string) : string :=
  let head := head_to_last_sep p in
  if negb (String.eqb head EmptyString) && negb (all_sep head) then rstrip_sep head
  else head.

(** Python set operations on duplicate-free lists. *)
Definition mem (x : string) (s : list string) : bool := existsb (String.eqb x) s.

Definition set_add (x : string) (s : list string) : list string :=
  if mem x s then s else (s ++ [x])%list.

Definition difference (s t : list string) : list string :=
  filter (fun x => negb (mem x t)) s.

(** [sorted] on strings: code-point lexicographic order, [String.leb]. *)
Module StringOrder <: TotalLeBool'.
Definition t := string.
Definition leb := String.leb.
Lemma leb_total : forall a1 a2, leb a1 a2 = true \/ leb a2 a1 = true.
Proof. exact String.leb_total. Qed.
End StringOrder.

Module StringSort := Sort StringOrder.

Definition sorted (l : list string) : list string := StringSort.sort l.

(** [itertools.combinations(l, 2)] *)
Fixpoint combinations2 (l : list string) : list (string * string) :=
  match l with
  | [] => []
  | x :: r => (map (fun y => (x, y)) r ++ combinations2 r)%list
  end.

(** ** get_min_files (relocate.py, lines 103-125) *)

Definition get_min_files (files min_folders : list string) : list string :=
  fold_left
    (fun min_files f1 =>
       if existsb (fun f2 => contains f2 (dirname f1)) min_folders
       then min_files            (* break *)
       else set_add f1 min_files (* for ... else *))
    files [].

(** ** get_min_folders (relocate.py, lines 128-159) *)

(** First loop: over [itertools.combinations(sorted(folders), 2)]. *)
Definition pair_excludes (folders : list string) (exclude : list string) :=
  fold_left
    (fun exclude '(f1, f2) =>
       if negb (String.eqb f1 f2) && contains f1 f2
       then set_add f2 exclude else exclude)
    (combinations2 (sorted folders)) exclude.

(** Second loop: folders containing a path passed to [--p-include]. *)
Definition include_excludes (folders included : list string)
    (exclude : list string) :=
  fold_left
    (fun exclude f1 =>
       fold_left
         (fun exclude f2 => if contains f2 f1 then set_add f1 exclude else exclude)
         included exclude)
    folders exclude.

Definition get_min_folders (folders included : list string) : list string :=
  let exclude := pair_excludes folders [] in
  let exclude := include_excludes folders included exclude in
  difference folders exclude.

(** ** The [args] dictionary *)

(** The keys of [args] that relocate.py reads or writes.  [include] and
    [exclude] are [None] or a tuple (an empty list stands for [None]);
    [scratch], [userscratch] and [localscratch] are [None]/[False] or a path;
    [mkdir] is a Python set. *)
Record args := mk_args {
  job_id : string;
  include : list string;
  exclude : list string;
  localscratch : option string;
  scratch : option string;
  userscratch : option string;
  torque : bool;
  move : bool;
  clear_scratch : bool;
  paths : list string;
  scratching : list string;
  mkdir : list string;
  move_to : list string;
  move_from : list string;
  clear : list string
}.

Definition set_scratching a v := mk_args (job_id a) (include a) (exclude a)
  (localscratch a) (scratch a) (userscratch a) (torque a) (move a)
  (clear_scratch a) (paths a) v (mkdir a) (move_to a) (move_from a) (clear a).
Definition set_mkdir a v := mk_args (job_id a) (include a) (exclude a)
  (localscratch a) (scratch a) (userscratch a) (torque a) (move a)
  (clear_scratch a) (paths a) (scratching a) v (move_to a) (move_from a) (clear a).
Definition set_move_to a v := mk_args (job_id a) (include a) (exclude a)
  (localscratch a) (scratch a) (userscratch a) (torque a) (move a)
  (clear_scratch a) (paths a) (scratching a) (mkdir a) v (move_from a) (clear a).
Definition set_move_from a v := mk_args (job_id a) (include a) (exclude a)
  (localscratch a) (scratch a) (userscratch a) (torque a) (move a)
  (clear_scratch a) (paths a) (scratching a) (mkdir a) (move_to a) v (clear a).
Definition set_clear a v := mk_args (job_id a) (include a) (exclude a)
  (localscratch a) (scratch a) (userscratch a) (torque a) (move a)
  (clear_scratch a) (paths a) (scratching a) (mkdir a) (move_to a) (move_from a) v.

(** [args['mkdir'].add(x)] *)
Definition mkdir_add (x : string) (a : args) : args :=
  set_mkdir a (set_add x (mkdir a)).
(** [args[key].append(x)] *)
Definition move_to_append (x : string) (a : args) := set_move_to a (move_to a ++ [x])%list.
Definition move_from_append (x : string) (a : args) := set_move_from a (move_from a ++ [x])%list.
Definition scratching_append (x : string) (a : args) := set_scratching a (scratching a ++ [x])%list.
Definition clear_append (x : string) (a : args) := set_clear a (clear a ++ [x])%list.

(** The newline character of the [\n# ...] comment lines. *)
Definition nl : string := String (ascii_of_nat 10) EmptyString.
(** The double-quote character. *)
Definition dq : string := String (ascii_of_nat 34) EmptyString.

(** Python truthiness of an optional path: [None], [False] and [''] are false. *)
Definition truthy (o : option string) : bool :=
  match o with
  | Some s => negb (String.eqb s EmptyString)
  | None => false
  end.

(** ** get_scratch_path (lines 14-41) *)

Fixpoint first_truthy (vals : list (option string)) : option string :=
  match vals with
  | [] => None
  | v :: r => if truthy v then v else first_truthy r
  end.

(** [for scratch_path in ['localscratch', 'scratch', 'userscratch']: ...];
    falling off the loop returns [None]. *)
Definition get_scratch_path (a : args) : option string :=
  first_truthy [localscratch a; scratch a; userscratch a].

Definition opt_str (o : option string) : string :=
  match o with Some s => s | None => "None" end.

(** ** get_scratching_commands (lines 44-75) *)

Definition get_scratching_commands (a : args) : args :=
  if truthy (scratch a) || truthy (userscratch a) || truthy (localscratch a) then
    let scratch_path := opt_str (get_scratch_path a) ++ "/${" ++ job_id a ++ "}" in
    let a := scratching_append (nl ++ "# Define and create a scratch directory") a in
    let a := scratching_append ("SCRATCH_DIR=" ++ dq ++ scratch_path ++ dq) a in
    let a := scratching_append "mkdir -p ${SCRATCH_DIR}" a in
    let a := scratching_append "cd ${SCRATCH_DIR}" a in
    scratching_append "echo Working directory is ${SCRATCH_DIR}" a
  else
    let a := scratching_append (nl ++ "# Define scratch directory as working dir") a in
    if torque a then scratching_append "SCRATCH_DIR=$PBS_O_WORKDIR" a
    else scratching_append "SCRATCH_DIR=$SLURM_SUBMIT_DIR" a.

(** ** Path classification and command synthesis *)

(** [in_out = {'files': ..., 'folders': ..., 'out': ...}] *)
Record in_out := mk_in_out { files : list string; folders : list string; out : list string }.

(** [min_paths = {'folders': ..., 'files': ...}] *)
Record min_paths := mk_min_paths { min_folders : list string; min_files : list string }.

(** [set.update(xs)] *)
Definition set_update (xs s : list string) : list string :=
  fold_left (fun s x => set_add x s) xs s.

(** ** get_exclude (lines 201-222) *)

Definition get_exclude (a : args) : string :=
  match exclude a with
  | [] => EmptyString
  | ex => "/ --exclude={'" ++ String.concat "','" ex ++ "'}"
  end.

(** [SCRATCH_DIR] prefix of the scratch-side counterpart of a path. *)
Definition scratch_of (path : string) : string := "${SCRATCH_DIR}" ++ path.

(** ** get_out_commands (lines 295-320) *)

(** The line appended to [move_from] for each minimal folder (line 313). *)
Definition folder_back_line (folder : string) : string :=
  "rsync -auqr " ++ scratch_of folder ++ "/ " ++ folder ++ "; fi".

(** The two lines appended to [move_from] for each pending output
    (lines 317-320). *)
Definition out_back_lines (path : string) : list string :=
  let source := scratch_of path in
  [ "if [ -d " ++ source ++ " ]; then mkdir -p " ++ path ++ "; rsync -auqr "
      ++ source ++ "/ " ++ path ++ "; fi";
    "if [ -f " ++ source ++ " ]; then rsync -auqr " ++ source ++ " " ++ path
      ++ "; fi" ].

Definition get_out_commands (a : args) (mp : min_paths) (io : in_out) : args :=
  let a := fold_left
             (fun a folder =>
                let a := mkdir_add ("mkdir -p " ++ folder) a in
                move_from_append (folder_back_line folder) a)
             (min_folders mp) a in
  fold_left
    (fun a path => set_move_from a (move_from a ++ out_back_lines path)%list)
    (out io) a.

(** ** get_clearing_commands (lines 348-368) *)

Definition get_clearing_commands (a : args) : args :=
  if clear_scratch a then
    let a := clear_append (nl ++ "# Move away and clear the scratch area") a in
    if torque a then
      clear_append "rm -rf ${SCRATCH_DIR}" (clear_append "cd ${PBS_O_WORKDIR}" a)
    else
      clear_append "rm -rf ${SCRATCH_DIR}" (clear_append "cd ${SLURM_SUBMIT_DIR}" a)
  else a.

(** ** go_to_work (lines 371-386) *)

Definition go_to_work (a : args) : args :=
  let a := set_move_to a ["# Move to the working directory and say it"] in
  let work_dir := if torque a then "PBS_O_WORKDIR" else "SLURM_SUBMIT_DIR" in
  let a := move_to_append ("cd $" ++ work_dir) a in
  move_to_append ("echo Working directory is $" ++ work_dir) a.

Section Filesystem.

(** The filesystem probes: [os.path.isfile], [os.path.isdir] and
    [os.path.abspath] at planning time. *)
Variable isfile : string -> bool.
Variable isdir : string -> bool.
Variable abspath : string -> string.

(** ** get_in_out (lines 78-100) *)

Definition get_in_out (ps : list string) : in_out :=
  fold_left
    (fun io path =>
       if isfile path then mk_in_out (set_add path (files io)) (folders io) (out io)
       else if isdir path then mk_in_out (files io) (set_add path (folders io)) (out io)
       else mk_in_out (files io) (folders io) (set_add path (out io)))
    ps (mk_in_out [] [] []).

(** ** get_include_commands (lines 162-198) *)

Definition include_to_line (folder : string) : string :=
  "rsync -aqru " ++ folder ++ "/ " ++ scratch_of folder.
Definition include_from_line (folder : string) : string :=
  "rsync -aqru " ++ scratch_of folder ++ "/ " ++ folder.

Definition include_to_header : string := nl ++ "# Include command (move to scratch)".
Definition include_from_header : string := nl ++ "# Include command (move from scratch)".

(** The body of [for folder_ in args['include']], over the state
    [(args, included, m_to, m_from)]. *)
Definition include_step (st : args * list string * list string * list string)
    (folder_ : string) : args * list string * list string * list string :=
  let '(a, included, m_to, m_from) := st in
  if negb (isdir folder_) then (a, included, m_to, m_from) (* continue *)
  else
    let folder := abspath folder_ in
    let a := set_mkdir a (set_update ["mkdir -p " ++ dirname (scratch_of folder);
                                      "mkdir -p " ++ folder] (mkdir a)) in
    (a, set_add folder included,
     (m_to ++ [include_to_line folder])%list,
     (m_from ++ [include_from_line folder])%list).

Definition get_include_commands (a : args) : args * list string :=
  match include a with
  | [] => (a, [])
  | incs =>
      let '(a, included, m_to, m_from) := fold_left include_step incs (a, [], [], []) in
      let a := match m_to with
               | [] => a
               | _ => set_move_to a (move_to a ++ include_to_header :: m_to)%list
               end in
      let a := match m_from with
               | [] => a
               | _ => set_move_from a (move_from a ++ include_from_header :: m_from)%list
               end in
      (a, included)
  end.

(** ** move_to (lines 225-250) *)

Definition move_to' (a : args) (path : string) (is_folder : bool) (exclude : string)
    : args * list string :=
  let source := if is_folder then path ++ "/" else path in
  let destination := scratch_of path in
  let a := mkdir_add ("mkdir -p " ++ dirname destination) a in
  (a, ["rsync -aqru " ++ source ++ " " ++ destination ++ exclude]).

(** ** get_min_paths (lines 253-274) *)

Definition get_min_paths (io : in_out) (included : list string) : min_paths :=
  let mf := get_min_folders (folders io) included in
  mk_min_paths mf (get_min_files (files io) mf).

(** ** get_in_commands (lines 277-292) *)

Definition get_in_commands (a : args) (mp : min_paths) (exclude : string) : args :=
  let a := fold_left
             (fun a min_folder =>
                let '(a, mv) := move_to' a min_folder true exclude in
                set_move_to a (move_to a ++ mv)%list)
             (min_folders mp) a in
  fold_left
    (fun a min_file =>
       let '(a, mv) := move_to' a min_file false EmptyString in
       set_move_to a (move_to a ++ mv)%list)
    (min_files mp) a.

(** ** get_relocating_commands (lines 323-345) *)

Definition get_relocating_commands (a : args) : args :=
  let '(a, included) := get_include_commands a in
  let exclude := get_exclude a in
  let io := get_in_out (paths a) in
  let mp := get_min_paths io included in
  let a := get_in_commands a mp exclude in
  get_out_commands a mp io.

(** ** get_relocation (lines 389-416) *)

Definition get_relocation (a : args) : args :=
  let a := set_scratching a [] in
  let a := set_mkdir a [] in
  let a := set_move_to a [] in
  let a := set_move_from a [] in
  let a := set_clear a [] in
  if move a then
    let a := get_scratching_commands a in
    let a := get_relocating_commands a in
    get_clearing_commands a
  else go_to_work a.

End Filesystem.

(** * Lemmas on the Python primitives *)

Module StrFacts.

Lemma app_empty_r (s : string) : s ++ EmptyString = s.
Proof. induction s; simpl; congruence. Qed.

Lemma app_assoc (s t u : string) : (s ++ t) ++ u = s ++ (t ++ u).
Proof. induction s; simpl; congruence. Qed.

Lemma length_app (s t : string) :
  String.length (s ++ t) = String.length s + String.length t.
Proof. induction s; simpl; auto. Qed.

Lemma length_zero (s : string) : String.length s = 0 -> s = EmptyString.
Proof. destruct s; simpl; auto; discriminate. Qed.

Lemma prefix_spec (a b : string) :
  String.prefix a b = true <-> exists v, b = a ++ v.
Proof.
  revert b; induction a as [|x a IH]; intros b; simpl.
  - split; [intros _; exists b; reflexivity | intros _; destruct b; reflexivity].
  - destruct b as [|y b].
    + split; [discriminate | intros [v Hv]; discriminate].
    + simpl. destruct (ascii_dec x y) as [<-|Hne].
      * rewrite IH; split; intros [v Hv]; exists v; congruence.
      * split; [discriminate | intros [v Hv]; congruence].
Qed.

Lemma contains_unfold (a b : string) :
  contains a b = String.prefix a b ||
                 match b with EmptyString => false | String _ b' => contains a b' end.
Proof. destruct b; reflexivity. Qed.

Lemma contains_spec (a b : string) :
  contains a b = true <-> exists u v, b = u ++ a ++ v.
Proof.
  induction b as [|c b IH]; rewrite contains_unfold, orb_true_iff, prefix_spec.
  - split.
    + intros [[v Hv]|H]; [|discriminate].
      exists EmptyString, EmptyString. destruct a; [reflexivity|discriminate].
    + intros [u [v Huv]]. left. exists EmptyString.
      destruct u; [|discriminate]. destruct a; [reflexivity|discriminate].
  - rewrite IH. split.
    + intros [[v Hv]|[u [v Huv]]].
      * exists EmptyString, v. exact Hv.
      * exists (String c u), v. simpl. congruence.
    + intros [u [v Huv]]. destruct u as [|c' u]; simpl in Huv.
      * left. eauto.
      * right. exists u, v. congruence.
Qed.

Lemma contains_refl (a : string) : contains a a = true.
Proof.
  apply contains_spec. exists EmptyString, EmptyString.
  simpl. now rewrite app_empty_r.
Qed.

Lemma contains_trans (a b c : string) :
  contains a b = true -> contains b c = true -> contains a c = true.
Proof.
  rewrite !contains_spec. intros [u [v ->]] [u' [v' ->]].
  exists (u' ++ u), (v ++ v'). now rewrite !app_assoc.
Qed.

Lemma contains_length (a b : string) :
  contains a b = true -> String.length a <= String.length b.
Proof.
  rewrite contains_spec. intros [u [v ->]]. rewrite !length_app. lia.
Qed.

Lemma contains_proper_lt (a b : string) :
  contains a b = true -> a <> b -> String.length a < String.length b.
Proof.
  rewrite contains_spec. intros [u [v ->]] Hne.
  rewrite !length_app in *.
  destruct (String.length u) eqn:Hu; [destruct (String.length v) eqn:Hv|]; try lia.
  exfalso. apply Hne. apply length_zero in Hu, Hv. subst. simpl.
  now rewrite app_empty_r.
Qed.

(** The lexicographic order [String.leb] used by [sorted]. *)
Lemma leb_cons (x y : ascii) (a b : string) :
  String.leb (String x a) (String y b) = true <->
  (N_of_ascii x < N_of_ascii y)%N \/ (x = y /\ String.leb a b = true).
Proof.
  unfold String.leb; simpl; unfold Ascii.compare.
  destruct (N.compare_spec (N_of_ascii x) (N_of_ascii y)) as [Heq|Hlt|Hgt].
  - assert (x = y) as <-.
    { rewrite <- (ascii_N_embedding x), <- (ascii_N_embedding y). congruence. }
    split; [intros H; right; split; auto | intros [H|[_ H]]; [lia|exact H]].
  - split; auto.
  - split; [discriminate|]. intros [H|[-> _]]; lia.
Qed.

Lemma leb_empty (b : string) : String.leb EmptyString b = true.
Proof. destruct b; reflexivity. Qed.

Lemma leb_trans (a b c : string) :
  String.leb a b = true -> String.leb b c = true -> String.leb a c = true.
Proof.
  revert b c; induction a as [|x a IH]; intros b c Hab Hbc.
  - apply leb_empty.
  - destruct b as [|y b]; [discriminate|].
    destruct c as [|z c]; [discriminate|].
    rewrite leb_cons in *.
    destruct Hab as [Hxy|[<- Hab]]; destruct Hbc as [Hyz|[<- Hbc]]; eauto; lia.
Qed.

Lemma leb_refl (a : string) : String.leb a a = true.
Proof. destruct (String.leb_total a a); auto. Qed.

Lemma prefix_leb (a b : string) : String.prefix a b = true -> String.leb a b = true.
Proof.
  revert b; induction a as [|x a IH]; intros b H.
  - apply leb_empty.
  - destruct b as [|y b]; [discriminate|]. simpl in H.
    destruct (ascii_dec x y) as [<-|]; [|discriminate].
    apply leb_cons. right. auto.
Qed.

End StrFacts.

(** * Membership in the reducer's sets *)

Module SetFacts.
Import StrFacts.

Lemma mem_spec (x : string) (s : list string) : mem x s = true <-> In x s.
Proof.
  unfold mem. rewrite existsb_exists. split.
  - intros [y [Hy Hxy]]. apply String.eqb_eq in Hxy. now subst.
  - intros H. exists x. split; [exact H | apply String.eqb_refl].
Qed.

Lemma set_add_spec (x y : string) (s : list string) :
  In x (set_add y s) <-> In x s \/ x = y.
Proof.
  unfold set_add. destruct (mem y s) eqn:Hm.
  - apply mem_spec in Hm. split; [auto|]. intros [H| ->]; auto.
  - rewrite in_app_iff. simpl. intuition.
Qed.

Lemma difference_spec (x : string) (s t : list string) :
  In x (difference s t) <-> In x s /\ ~ In x t.
Proof.
  unfold difference. rewrite filter_In, negb_true_iff.
  destruct (mem x t) eqn:Hm.
  - apply mem_spec in Hm. intuition discriminate.
  - split; [intros [H _]; split; [exact H|] | intuition].
    intros Hin. apply mem_spec in Hin. congruence.
Qed.

(** A loop that only adds to a set: membership after the loop. *)
Lemma fold_union_spec {A : Type} (f : list string -> A -> list string)
    (Q : A -> string -> Prop)
    (Hf : forall ex y x, In x (f ex y) <-> In x ex \/ Q y x) :
  forall l init x,
    In x (fold_left f l init) <-> In x init \/ exists y, In y l /\ Q y x.
Proof.
  induction l as [|y l IH]; intros init x; simpl.
  - split; [auto|]. intros [H|[_ [[] _]]]. exact H.
  - rewrite IH, Hf. split.
    + intros [[H|H]|[z [Hz HQ]]]; eauto.
    + intros [H|[z [[<-|Hz] HQ]]]; eauto.
Qed.

Lemma sorted_perm (l : list string) : Permutation l (sorted l).
Proof. apply StringSort.Permuted_sort. Qed.

Lemma sorted_strongly (l : list string) : StronglySorted (fun a b => String.leb a b = true) (sorted l).
Proof.
  apply StringSort.StronglySorted_sort.
  intros a b c. apply leb_trans.
Qed.

Lemma in_sorted (x : string) (l : list string) : In x (sorted l) <-> In x l.
Proof.
  split; apply Permutation_in; [symmetry|]; apply sorted_perm.
Qed.

Lemma combinations2_sound (l : list string) (x y : string) :
  StronglySorted (fun a b => String.leb a b = true) l -> In (x, y) (combinations2 l) ->
  In x l /\ In y l /\ String.leb x y = true.
Proof.
  intros Hs; induction Hs as [|z l Hs IH Hall]; simpl; [tauto|].
  rewrite in_app_iff, in_map_iff. intros [[w [Heq Hw]]|H].
  - injection Heq as <- <-. rewrite Forall_forall in Hall. auto.
  - destruct (IH H) as [? [? ?]]. auto.
Qed.

Lemma combinations2_complete (l : list string) (x y : string) :
  StronglySorted (fun a b => String.leb a b = true) l -> In x l -> In y l ->
  String.leb x y = true -> x <> y -> In (x, y) (combinations2 l).
Proof.
  intros Hs; induction Hs as [|z l Hs IH Hall]; simpl; [tauto|].
  rewrite Forall_forall in Hall. rewrite in_app_iff, in_map_iff.
  intros [<-|Hx] [<-|Hy] Hxy Hne.
  - congruence.
  - left. eauto.
  - exfalso. apply Hne. apply String.leb_antisym; auto.
  - right. auto.
Qed.

(** The first loop of [get_min_folders]: the folders that have another
    folder, sorted before them, as a substring. *)
Lemma pair_excludes_spec (folders : list string) (x : string) :
  In x (pair_excludes folders []) <->
  In x folders /\
  exists f1, In f1 folders /\ f1 <> x /\ String.leb f1 x = true /\
             contains f1 x = true.
Proof.
  unfold pair_excludes.
  rewrite (fold_union_spec _
    (fun '(f1, f2) x => f1 <> f2 /\ contains f1 f2 = true /\ x = f2)).
  2:{ intros ex [f1 f2] z. rewrite andb_comm.
      destruct (contains f1 f2) eqn:Hc; simpl.
      - destruct (String.eqb f1 f2) eqn:He; simpl.
        + apply String.eqb_eq in He. intuition.
        + apply String.eqb_neq in He. rewrite set_add_spec. intuition.
      - intuition discriminate. }
  pose proof (sorted_strongly folders) as Hs. split.
  - intros [[]|[[f1 f2] [Hin [Hne [Hc ->]]]]].
    destruct (combinations2_sound _ _ _ Hs Hin) as [H1 [H2 Hle]].
    rewrite in_sorted in H1, H2. eauto 7.
  - intros [Hx [f1 [Hf1 [Hne [Hle Hc]]]]]. right. exists (f1, x).
    split; [|auto].
    apply combinations2_complete; auto; apply in_sorted; auto.
Qed.

(** The second loop: the folders containing an [--p-include] path. *)
Lemma include_excludes_spec (folders included ex : list string) (x : string) :
  In x (include_excludes folders included ex) <->
  In x ex \/
  (In x folders /\ exists f2, In f2 included /\ contains f2 x = true).
Proof.
  unfold include_excludes.
  rewrite (fold_union_spec _
    (fun f1 x => x = f1 /\ exists f2, In f2 included /\ contains f2 f1 = true)).
  - split.
    + intros [H|[f1 [Hf1 [-> H]]]]; eauto.
    + intros [H|[Hx H]]; eauto.
  - intros ex' f1 z.
    rewrite (fold_union_spec _ (fun f2 z => contains f2 f1 = true /\ z = f1)).
    + split.
      * intros [H|[f2 [Hf2 [Hc ->]]]]; eauto.
      * intros [H|[-> [f2 [Hf2 Hc]]]]; eauto.
    + intros ex'' f2 w. destruct (contains f2 f1) eqn:Hc.
      * rewrite set_add_spec. intuition.
      * intuition discriminate.
Qed.

(** Membership in the output of [get_min_folders]. *)
Lemma get_min_folders_spec (folders included : list string) (x : string) :
  In x (get_min_folders folders included) <->
  In x folders /\
  ~ (exists f1, In f1 folders /\ f1 <> x /\ String.leb f1 x = true /\
                contains f1 x = true) /\
  ~ (exists f2, In f2 included /\ contains f2 x = true).
Proof.
  unfold get_min_folders.
  rewrite difference_spec, include_excludes_spec, pair_excludes_spec.
  intuition.
Qed.

Lemma get_min_folders_incl (folders included : list string) (x : string) :
  In x (get_min_folders folders included) -> In x folders.
Proof. rewrite get_min_folders_spec. tauto. Qed.

End SetFacts.

(** * The reducer: get_min_folders and get_min_files *)

Import StrFacts SetFacts.

Lemma prefix_contains (a b : string) :
  String.prefix a b = true -> contains a b = true.
Proof. intros H. rewrite contains_unfold, H. reflexivity. Qed.

(** Scenario 1 of the spec, as in test_get_min_folders. *)
Definition scenario_folders : list string :=
  ["/a/b/c/d/e"; "/a/b/c/d"; "/a/b/c"; "/1/2/3/4/5"; "/1"].

Example get_min_folders_scenario :
  get_min_folders scenario_folders [] = ["/a/b/c"; "/1"].
Proof. vm_compute. reflexivity. Qed.

(** C1 as stated fails: ["/x"] occurs in ["/a/x"], but ["/a/x"] sorts
    before ["/x"], so the pair (["/a/x"], ["/x"]) of
    [combinations(sorted(folders), 2)] never tests ["/x" in "/a/x"]. *)
Lemma C1_counterexample :
  ~ (forall folders included x y,
        In x (get_min_folders folders included) ->
        In y (get_min_folders folders included) ->
        x <> y -> contains x y = false).
Proof.
  intros H.
  assert (E : get_min_folders ["/a/x"; "/x"] [] = ["/a/x"; "/x"])
    by (vm_compute; reflexivity).
  specialize (H ["/a/x"; "/x"] [] "/x" "/a/x").
  rewrite E in H. simpl in H.
  discriminate (H ltac:(tauto) ltac:(tauto) ltac:(discriminate)).
Qed.

(** C1 (amended): of two distinct returned folders, the one that sorts
    first does not occur in the other; in particular no returned folder
    is a proper prefix of another. *)
Theorem C1_min_folders_non_containing (folders included : list string)
    (x y : string) :
  In x (get_min_folders folders included) ->
  In y (get_min_folders folders included) ->
  x <> y ->
  (String.leb x y = true -> contains x y = false) /\ String.prefix x y = false.
Proof.
  intros Hx Hy Hne.
  assert (Hx' := get_min_folders_incl _ _ _ Hx).
  apply get_min_folders_spec in Hy as [_ [Hpair _]].
  assert (Hle : String.leb x y = true -> contains x y = false).
  { intros Hle. destruct (contains x y) eqn:Hc; [|reflexivity].
    exfalso. apply Hpair. exists x. auto. }
  split; [exact Hle|].
  destruct (String.prefix x y) eqn:Hp; [|reflexivity].
  pose proof (Hle (prefix_leb _ _ Hp)) as Hc.
  now rewrite (prefix_contains _ _ Hp) in Hc.
Qed.

Lemma C1_min_folders_non_containing_witness :
  In "/1" (get_min_folders scenario_folders []) /\
  In "/a/b/c" (get_min_folders scenario_folders []) /\
  "/1" <> "/a/b/c" /\
  (String.leb "/1" "/a/b/c" = true -> contains "/1" "/a/b/c" = false) /\
  String.prefix "/1" "/a/b/c" = false.
Proof.
  assert (H1 : In "/1" (get_min_folders scenario_folders []))
    by (rewrite get_min_folders_scenario; simpl; tauto).
  assert (H2 : In "/a/b/c" (get_min_folders scenario_folders []))
    by (rewrite get_min_folders_scenario; simpl; tauto).
  assert (H3 : "/1" <> "/a/b/c") by discriminate.
  split; [exact H1|]. split; [exact H2|]. split; [exact H3|].
  exact (C1_min_folders_non_containing scenario_folders [] "/1" "/a/b/c" H1 H2 H3).
Defined.

(** C2 as stated fails once an include override is given: with
    folders [{"/a"}] and included [{"/a"}], ["/a"] is excluded because the
    include ["/a"] occurs in it, and nothing is returned. *)
Lemma C2_counterexample :
  ~ (forall folders included d,
        In d folders ->
        In d (get_min_folders folders included) \/
        exists o, In o (get_min_folders folders included) /\ contains o d = true).
Proof.
  intros H.
  assert (E : get_min_folders ["/a"] ["/a"] = []) by (vm_compute; reflexivity).
  specialize (H ["/a"] ["/a"] "/a" ltac:(simpl; tauto)).
  rewrite E in H. simpl in H. firstorder.
Qed.

(** C2 (amended): every folder is returned, or contains a returned
    folder, or contains a path passed to [--p-include]. *)
Theorem C2_min_folders_cover (folders included : list string) (d : string) :
  In d folders ->
  In d (get_min_folders folders included) \/
  (exists o, In o (get_min_folders folders included) /\ contains o d = true) \/
  (exists i, In i included /\ contains i d = true).
Proof.
  intros Hd. right.
  remember (String.length d) as n eqn:Hn.
  revert d Hd Hn. induction n as [n IH] using lt_wf_ind. intros d Hd Hn.
  destruct (existsb (fun i => contains i d) included) eqn:Hinc.
  { right. apply existsb_exists in Hinc. exact Hinc. }
  destruct (existsb (fun f1 => negb (String.eqb f1 d) && String.leb f1 d
                               && contains f1 d) folders) eqn:Hpair.
  - apply existsb_exists in Hpair as [f1 [Hf1 Hc]].
    apply andb_true_iff in Hc as [Hc Hsub]. apply andb_true_iff in Hc as [Hne _].
    apply negb_true_iff, String.eqb_neq in Hne.
    assert (Hlt := contains_proper_lt _ _ Hsub Hne).
    destruct (IH (String.length f1) ltac:(lia) f1 Hf1 eq_refl)
      as [[o [Ho Hof]]|[i [Hi Hif]]].
    + left. exists o. split; [exact Ho | eapply contains_trans; eauto].
    + right. exists i. split; [exact Hi | eapply contains_trans; eauto].
  - left. exists d. split; [|apply contains_refl].
    apply get_min_folders_spec. split; [exact Hd|]. split.
    + intros [f1 [Hf1 [Hne [Hle Hc]]]].
      assert (Hf : In f1 folders /\ negb (String.eqb f1 d) && String.leb f1 d
                                    && contains f1 d = true).
      { split; [exact Hf1|]. apply String.eqb_neq in Hne. now rewrite Hne, Hle, Hc. }
      rewrite <- not_true_iff_false in Hpair. apply Hpair.
      apply existsb_exists. eauto.
    + intros Hex. rewrite <- not_true_iff_false in Hinc. apply Hinc.
      apply existsb_exists. exact Hex.
Qed.

Lemma C2_min_folders_cover_witness :
  In "/a/b/c/d/e" scenario_folders /\
  (In "/a/b/c/d/e" (get_min_folders scenario_folders []) \/
   (exists o, In o (get_min_folders scenario_folders []) /\
              contains o "/a/b/c/d/e" = true) \/
   (exists i, In i [] /\ contains i "/a/b/c/d/e" = true)).
Proof.
  assert (H : In "/a/b/c/d/e" scenario_folders) by (simpl; tauto).
  split; [exact H | exact (C2_min_folders_cover scenario_folders [] _ H)].
Defined.

Lemma difference_id (s t : list string) :
  (forall x, In x s -> ~ In x t) -> difference s t = s.
Proof.
  induction s as [|x s IH]; intros H; simpl; [reflexivity|].
  destruct (mem x t) eqn:Hm.
  - apply mem_spec in Hm. exfalso. apply (H x); simpl; auto.
  - simpl. f_equal. apply IH. intros y Hy. apply H. simpl. auto.
Qed.

(** C3: the reducer is idempotent; reducing its own output with the same
    include overrides gives back exactly that output. *)
Theorem C3_get_min_folders_idempotent (folders included : list string) :
  get_min_folders (get_min_folders folders included) included =
  get_min_folders folders included.
Proof.
  set (m := get_min_folders folders included).
  unfold get_min_folders at 1. apply difference_id.
  intros x Hx. rewrite include_excludes_spec, pair_excludes_spec.
  assert (Hx' := Hx). unfold m in Hx'.
  apply get_min_folders_spec in Hx' as [_ [Hpair Hinc]].
  intros [[_ [f1 [Hf1 Hrest]]]|[_ Hex]].
  - apply Hpair. exists f1. split; [|exact Hrest].
    exact (get_min_folders_incl _ _ _ Hf1).
  - exact (Hinc Hex).
Qed.

(** Scenario 2 of the spec, as in test_get_min_files. *)
Definition scenario_files : list string :=
  ["/a/b/c/d/e.txt"; "/a/b/c/d.txt"; "/a/b/c.txt"; "/1/2.txt"; "/1.txt"].

(** C4: [get_min_files] keeps a file exactly when no minimal folder
    occurs in its [dirname]; on scenario 2 it returns
    [{/a/b/c.txt, /1.txt}]. *)
Theorem C4_get_min_files_spec :
  (forall (fs min_fs : list string) (f : string),
      In f (get_min_files fs min_fs) <->
      In f fs /\ ~ (exists d, In d min_fs /\ contains d (dirname f) = true)) /\
  get_min_files scenario_files ["/a/b/c"; "/1"] = ["/a/b/c.txt"; "/1.txt"].
Proof.
  split; [|vm_compute; reflexivity].
  intros fs min_fs f. unfold get_min_files.
  rewrite (fold_union_spec _
    (fun f1 x => x = f1 /\
       existsb (fun f2 => contains f2 (dirname f1)) min_fs = false)).
  - split.
    + intros [[]|[f1 [Hf1 [-> Hno]]]]. split; [exact Hf1|].
      intros Hex. apply existsb_exists in Hex. congruence.
    + intros [Hf Hno]. right. exists f. split; [exact Hf|]. split; [reflexivity|].
      apply not_true_iff_false. intros Hex. apply Hno.
      apply existsb_exists in Hex. exact Hex.
  - intros ex f1 x.
    destruct (existsb (fun f2 => contains f2 (dirname f1)) min_fs).
    + intuition discriminate.
    + rewrite set_add_spec. intuition.
Qed.

(** C5: adding a path [d] to the include overrides never adds a folder
    to the result, and removes [d] itself when it is one of the folders. *)
Theorem C5_include_monotone (folders included : list string) (d : string) :
  (forall x, In x (get_min_folders folders (set_add d included)) ->
             In x (get_min_folders folders included)) /\
  (In d folders -> ~ In d (get_min_folders folders (set_add d included))).
Proof.
  split.
  - intros x. rewrite !get_min_folders_spec.
    intros [Hx [Hpair Hinc]]. split; [exact Hx|]. split; [exact Hpair|].
    intros [i [Hi Hc]]. apply Hinc. exists i.
    split; [apply set_add_spec; auto | exact Hc].
  - intros _. rewrite get_min_folders_spec. intros [_ [_ Hinc]].
    apply Hinc. exists d. split; [apply set_add_spec; auto | apply contains_refl].
Qed.

Lemma C5_include_monotone_witness :
  (In "/a/b/c" (get_min_folders scenario_folders (set_add "/a/b/c" [])) ->
   In "/a/b/c" (get_min_folders scenario_folders [])) /\
  In "/a/b/c" scenario_folders /\
  ~ In "/a/b/c" (get_min_folders scenario_folders (set_add "/a/b/c" [])).
Proof.
  assert (H : In "/a/b/c" scenario_folders) by (simpl; tauto).
  split; [exact (proj1 (C5_include_monotone scenario_folders [] "/a/b/c") "/a/b/c")|].
  split; [exact H | exact (proj2 (C5_include_monotone scenario_folders [] "/a/b/c") H)].
Defined.

(** * The command synthesizer *)

(** C9: [get_scratch_path] returns [localscratch] when it is set, else
    [scratch] when it is set, else [userscratch] when it is set. *)
Theorem C9_scratch_priority (a : args) :
  get_scratch_path a =
  if truthy (localscratch a) then localscratch a
  else if truthy (scratch a) then scratch a
  else if truthy (userscratch a) then userscratch a
  else None.
Proof. reflexivity. Qed.

Lemma include_step_dir isdir abspath a inc m_to m_from f :
  isdir f = true ->
  include_step isdir abspath (a, inc, m_to, m_from) f =
  (set_mkdir a (set_update ["mkdir -p " ++ dirname (scratch_of (abspath f));
                            "mkdir -p " ++ abspath f] (mkdir a)),
   set_add (abspath f) inc, (m_to ++ [include_to_line (abspath f)])%list,
   (m_from ++ [include_from_line (abspath f)])%list).
Proof. intros H. unfold include_step. now rewrite H. Qed.

Lemma include_step_skip isdir abspath a inc m_to m_from f :
  isdir f = false ->
  include_step isdir abspath (a, inc, m_to, m_from) f = (a, inc, m_to, m_from).
Proof. intros H. unfold include_step. now rewrite H. Qed.

(** The include loop leaves [move_to] and [move_from] alone and collects
    one line per include path that is a directory. *)
Lemma include_fold_spec (isdir : string -> bool) (abspath : string -> string) :
  forall incs a inc m_to m_from,
    let r := fold_left (include_step isdir abspath) incs (a, inc, m_to, m_from) in
    move_to (fst (fst (fst r))) = move_to a /\
    move_from (fst (fst (fst r))) = move_from a /\
    snd (fst r) = (m_to ++ map include_to_line (map abspath (filter isdir incs)))%list /\
    snd r = (m_from ++ map include_from_line (map abspath (filter isdir incs)))%list.
Proof.
  induction incs as [|f incs IH]; intros a inc m_to m_from; cbv zeta.
  - simpl. rewrite !app_nil_r. auto.
  - change (fold_left (include_step isdir abspath) (f :: incs) (a, inc, m_to, m_from))
      with (fold_left (include_step isdir abspath) incs
              (include_step isdir abspath (a, inc, m_to, m_from) f)).
    cbn [filter]. destruct (isdir f) eqn:Hd.
    + rewrite (include_step_dir _ _ _ _ _ _ _ Hd).
      destruct (IH (set_mkdir a (set_update ["mkdir -p " ++ dirname (scratch_of (abspath f));
                                             "mkdir -p " ++ abspath f] (mkdir a)))
                   (set_add (abspath f) inc) (m_to ++ [include_to_line (abspath f)])%list
                   (m_from ++ [include_from_line (abspath f)])%list)
        as [H1 [H2 [H3 H4]]].
      rewrite H1, H2, H3, H4, <- !List.app_assoc. auto.
    + rewrite (include_step_skip _ _ _ _ _ _ _ Hd). apply IH.
Qed.

Definition include_to_cmds (dirs : list string) : list string :=
  match dirs with [] => [] | _ => include_to_header :: map include_to_line dirs end.
Definition include_from_cmds (dirs : list string) : list string :=
  match dirs with [] => [] | _ => include_from_header :: map include_from_line dirs end.

(** C6 as stated fails: an include path that is not an existing
    directory is skipped ([if not isdir(folder_): continue]). *)
Lemma C6_counterexample :
  ~ (forall isdir abspath a f,
        In f (include a) ->
        In (include_to_line (abspath f))
           (move_to (fst (get_include_commands isdir abspath a))) /\
        In (include_from_line (abspath f))
           (move_from (fst (get_include_commands isdir abspath a)))).
Proof.
  intros H.
  destruct (H (fun _ => false) (fun s => s)
              (mk_args "X" ["/a"] [] None None None false true false [] [] [] [] [] [])
              "/a" ltac:(simpl; tauto)) as [Hto _].
  vm_compute in Hto. exact Hto.
Qed.

(** C6 (amended): for every include path that is an existing directory,
    in order and whatever its ancestry, one rsync line to scratch is
    appended to [move_to] and one back from scratch to [move_from], each
    block after one comment line; other include paths add nothing. *)
Theorem C6_include_commands (isdir : string -> bool) (abspath : string -> string)
    (a : args) :
  let a' := fst (get_include_commands isdir abspath a) in
  let dirs := map abspath (filter isdir (include a)) in
  move_to a' = (move_to a ++ include_to_cmds dirs)%list /\
  move_from a' = (move_from a ++ include_from_cmds dirs)%list.
Proof.
  unfold get_include_commands. destruct (include a) as [|f incs] eqn:Hinc.
  - simpl. rewrite !app_nil_r. auto.
  - pose proof (include_fold_spec isdir abspath (f :: incs) a [] [] []) as Hf.
    cbv zeta in Hf |- *.
    remember (map abspath (filter isdir (f :: incs))) as dirs eqn:Hdirs.
    destruct (fold_left (include_step isdir abspath) (f :: incs) (a, [], [], []))
      as [[[a1 inc1] mt1] mf1] eqn:Hr.
    cbn [fst snd] in Hf. destruct Hf as [H1 [H2 [H3 H4]]]. subst mt1 mf1.
    unfold include_to_cmds, include_from_cmds. cbn [app].
    destruct dirs as [|d ds]; cbn [map fst].
    + rewrite H1, H2, !app_nil_r. auto.
    + unfold set_move_from, set_move_to. cbn. rewrite H1, H2. auto.
Qed.

(** C7: with [move] unset, [get_relocation] only sets [move_to] to a
    comment, a [cd] to the submission directory and an echo of it;
    [move_from] and [clear] stay empty. *)
Theorem C7_no_scratch_relocation (isfile isdir : string -> bool)
    (abspath : string -> string) (a : args) :
  move a = false ->
  let r := get_relocation isfile isdir abspath a in
  let work_dir := if torque a then "PBS_O_WORKDIR" else "SLURM_SUBMIT_DIR" in
  move_to r = ["# Move to the working directory and say it";
               "cd $" ++ work_dir; "echo Working directory is $" ++ work_dir] /\
  move_from r = [] /\ clear r = [].
Proof.
  intros Hm. unfold get_relocation. cbn. rewrite Hm.
  unfold go_to_work. cbn. destruct (torque a); auto.
Qed.

(** The arguments of test_relocate.py's [setUp]. *)
Definition test_args : args :=
  mk_args "X" [] [] None None None false false false [] [] [] [] [] [].

Lemma C7_no_scratch_relocation_witness :
  move test_args = false /\
  move_to (get_relocation (fun _ => false) (fun _ => false) (fun s => s) test_args) =
    ["# Move to the working directory and say it";
     "cd $SLURM_SUBMIT_DIR"; "echo Working directory is $SLURM_SUBMIT_DIR"] /\
  move_from (get_relocation (fun _ => false) (fun _ => false) (fun s => s) test_args) = [] /\
  clear (get_relocation (fun _ => false) (fun _ => false) (fun s => s) test_args) = [].
Proof.
  assert (H : move test_args = false) by reflexivity.
  split; [exact H|].
  exact (C7_no_scratch_relocation (fun _ => false) (fun _ => false) (fun s => s)
           test_args H).
Defined.

(** [move_from] after [get_out_commands]: the old lines, one sync-back
    line per minimal folder, then two lines per pending output. *)
Lemma get_out_commands_move_from (a : args) (mp : min_paths) (io : in_out) :
  move_from (get_out_commands a mp io) =
  (move_from a ++ map folder_back_line (min_folders mp)
   ++ flat_map out_back_lines (out io))%list.
Proof.
  unfold get_out_commands.
  assert (Hf : forall fs a,
             move_from (fold_left (fun a folder =>
                                     move_from_append (folder_back_line folder)
                                       (mkdir_add ("mkdir -p " ++ folder) a)) fs a) =
             (move_from a ++ map folder_back_line fs)%list).
  { induction fs as [|x fs IH]; intros b; simpl.
    - now rewrite app_nil_r.
    - rewrite IH. cbn. now rewrite <- List.app_assoc. }
  assert (Ho : forall ps a,
             move_from (fold_left (fun a path =>
                                     set_move_from a (move_from a ++ out_back_lines path)%list)
                          ps a) =
             (move_from a ++ flat_map out_back_lines ps)%list).
  { induction ps as [|x ps IH]; intros b; simpl.
    - now rewrite app_nil_r.
    - rewrite IH. cbn. now rewrite <- List.app_assoc. }
  rewrite Ho, Hf, List.app_assoc. reflexivity.
Qed.

(** C8: for pending outputs, [move_from] gets only the two guarded lines
    [if [ -d ... ]; then mkdir -p ...; rsync ...; fi] and
    [if [ -f ... ]; then rsync ...; fi], after the minimal-folder lines. *)
Theorem C8_pending_outputs_guarded (a : args) (mp : min_paths) (io : in_out) :
  exists pre,
    length pre = length (min_folders mp) /\
    move_from (get_out_commands a mp io) =
    (move_from a ++ pre ++
     flat_map (fun p =>
       [("if [ -d ${SCRATCH_DIR}" ++ p ++ " ]; then mkdir -p " ++ p
          ++ "; rsync -auqr ${SCRATCH_DIR}" ++ p ++ "/ " ++ p ++ "; fi")%string;
        ("if [ -f ${SCRATCH_DIR}" ++ p ++ " ]; then rsync -auqr ${SCRATCH_DIR}"
          ++ p ++ " " ++ p ++ "; fi")%string]) (out io))%list.
Proof.
  exists (map folder_back_line (min_folders mp)). split; [apply length_map|].
  rewrite get_out_commands_move_from. reflexivity.
Qed.

(** C10: the sync-back line of each minimal folder [d] is exactly
    [rsync -auqr ${SCRATCH_DIR}d/ d; fi], a line that does not start
    with [if] although it ends in [; fi]. *)
Theorem C10_folder_back_line (a : args) (mp : min_paths) (io : in_out) :
  move_from (get_out_commands a mp io) =
  (move_from a ++
   map (fun d => ("rsync -auqr ${SCRATCH_DIR}" ++ d ++ "/ " ++ d ++ "; fi")%string)
       (min_folders mp)
   ++ flat_map out_back_lines (out io))%list /\
  Forall (fun d =>
            String.prefix "if" ("rsync -auqr ${SCRATCH_DIR}" ++ d ++ "/ " ++ d ++ "; fi")
            = false) (min_folders mp).
Proof.
  split.
  - rewrite get_out_commands_move_from. reflexivity.
  - apply Forall_forall. intros d _. reflexivity.
Qed.

(** * Further properties of relocate.py *)


(** [get_in_out] splits the paths into files, folders and the rest:
    a path is a file if [isfile] holds, a folder if [isdir] holds and
    [isfile] does not, and a pending output otherwise. *)
Lemma get_in_out_fold (isfile isdir : string -> bool) (ps : list string) :
  forall io x,
    let r := fold_left
      (fun io path =>
         if isfile path then mk_in_out (set_add path (files io)) (folders io) (out io)
         else if isdir path then mk_in_out (files io) (set_add path (folders io)) (out io)
         else mk_in_out (files io) (folders io) (set_add path (out io))) ps io in
    (In x (files r) <-> In x (files io) \/ (In x ps /\ isfile x = true)) /\
    (In x (folders r) <-> In x (folders io) \/
                          (In x ps /\ isfile x = false /\ isdir x = true)) /\
    (In x (out r) <-> In x (out io) \/
                      (In x ps /\ isfile x = false /\ isdir x = false)).
Proof.
  induction ps as [|p ps IH]; intros io x; cbv zeta; cbn [fold_left].
  - simpl. intuition.
  - destruct (IH (if isfile p then mk_in_out (set_add p (files io)) (folders io) (out io)
                  else if isdir p then mk_in_out (files io) (set_add p (folders io)) (out io)
                  else mk_in_out (files io) (folders io) (set_add p (out io))) x)
      as [Hf [Hd Ho]].
    rewrite Hf, Hd, Ho. simpl.
    destruct (isfile p) eqn:Hfp; [|destruct (isdir p) eqn:Hdp]; simpl;
      rewrite ?set_add_spec;
      split; [|split|split|split|split|split]; intuition subst; try congruence; auto.
Qed.

Theorem get_in_out_partition (isfile isdir : string -> bool) (ps : list string)
    (x : string) :
  (In x (files (get_in_out isfile isdir ps)) <-> In x ps /\ isfile x = true) /\
  (In x (folders (get_in_out isfile isdir ps)) <->
     In x ps /\ isfile x = false /\ isdir x = true) /\
  (In x (out (get_in_out isfile isdir ps)) <->
     In x ps /\ isfile x = false /\ isdir x = false).
Proof.
  destruct (get_in_out_fold isfile isdir ps (mk_in_out [] [] []) x) as [Hf [Hd Ho]].
  unfold get_in_out. rewrite Hf, Hd, Ho. simpl. intuition.
Qed.

Lemma truthy_some (o : option string) :
  truthy o = true -> exists s, o = Some s /\ s <> EmptyString.
Proof.
  destruct o as [s|]; simpl; [|discriminate]. intros H. exists s. split; [reflexivity|].
  intros ->. discriminate.
Qed.

(** [get_scratch_path] gives [None] exactly when no scratch option is set,
    and never an empty path. *)
Theorem get_scratch_path_none_iff (a : args) :
  (get_scratch_path a = None <->
   truthy (localscratch a) = false /\ truthy (scratch a) = false /\
   truthy (userscratch a) = false) /\
  get_scratch_path a <> Some EmptyString.
Proof.
  unfold get_scratch_path; simpl.
  destruct (truthy (localscratch a)) eqn:H1;
    [destruct (truthy_some _ H1) as [x [-> Hx]]; split; [split; [discriminate|] | congruence];
     intros [H _]; discriminate|].
  destruct (truthy (scratch a)) eqn:H2;
    [destruct (truthy_some _ H2) as [x [-> Hx]]; split; [split; [discriminate|] | congruence];
     intros [_ [H _]]; discriminate|].
  destruct (truthy (userscratch a)) eqn:H3;
    [destruct (truthy_some _ H3) as [x [-> Hx]]; split; [split; [discriminate|] | congruence];
     intros [_ [_ H]]; discriminate|].
  split; [tauto | discriminate].
Qed.

(** The configuration keys of [args]: everything but the five command
    lists that relocate.py fills. *)
Definition config (a : args) :=
  (job_id a, include a, exclude a, localscratch a, scratch a, userscratch a,
   torque a, move a, clear_scratch a, paths a).

(** [get_scratching_commands] appends to [scratching] only: the five
    lines that create [SCRATCH_DIR] under the path [get_scratch_path]
    chooses when a scratch option is set (so never a [None] path), and the
    two lines that alias the submission directory otherwise. *)
Theorem get_scratching_commands_lines (a : args) :
  get_scratching_commands a =
  set_scratching a (scratching a ++
    match get_scratch_path a with
    | Some s =>
        [(nl ++ "# Define and create a scratch directory")%string;
         ("SCRATCH_DIR=" ++ dq ++ (s ++ "/${" ++ job_id a ++ "}") ++ dq)%string;
         "mkdir -p ${SCRATCH_DIR}"; "cd ${SCRATCH_DIR}";
         "echo Working directory is ${SCRATCH_DIR}"]
    | None =>
        [(nl ++ "# Define scratch directory as working dir")%string;
         if torque a then "SCRATCH_DIR=$PBS_O_WORKDIR"
         else "SCRATCH_DIR=$SLURM_SUBMIT_DIR"]
    end)%list.
Proof.
  destruct a as [j i e l s u t m c p sc mk mt mf cl].
  unfold get_scratching_commands, get_scratch_path; cbn [first_truthy localscratch
    scratch userscratch torque job_id scratching].
  destruct (truthy l) eqn:Hl; [|destruct (truthy s) eqn:Hs; [|destruct (truthy u) eqn:Hu]];
  rewrite ?orb_true_r; cbn [orb];
  [destruct (truthy_some _ Hl) as [x [-> _]]
  |destruct (truthy_some _ Hs) as [x [-> _]]
  |destruct (truthy_some _ Hu) as [x [-> _]]
  |destruct t]; unfold scratching_append; cbn; rewrite <- ?List.app_assoc; reflexivity.
Qed.

(** The line [move_to] gives an input folder ([rsync] of its contents,
    then the exclude suffix) and an input file. *)
Definition folder_to_line (d exclude : string) : string :=
  "rsync -aqru " ++ d ++ "/ " ++ scratch_of d ++ exclude.
Definition file_to_line (f : string) : string :=
  "rsync -aqru " ++ f ++ " " ++ scratch_of f.

Ltac args_cbn :=
  cbn [move_to' negb config set_move_to set_move_from set_mkdir set_clear
       set_scratching mkdir_add move_to_append move_from_append clear_append
       scratching_append move_to move_from clear scratching mkdir job_id include
       exclude localscratch scratch userscratch torque move clear_scratch paths fst snd].

Lemma get_in_commands_folders (ex : string) :
  forall fs a,
    let r := fold_left (fun a min_folder =>
               let '(a, mv) := move_to' a min_folder true ex in
               set_move_to a (move_to a ++ mv)%list) fs a in
    config r = config a /\
    move_to r = (move_to a ++ map (fun d => folder_to_line d ex) fs)%list /\
    move_from r = move_from a /\ clear r = clear a /\ scratching r = scratching a /\
    (forall x, In x (mkdir r) <->
               In x (mkdir a) \/ exists p, In p fs /\ x = "mkdir -p " ++ dirname (scratch_of p)).
Proof.
  induction fs as [|d fs IH]; intros a; cbv zeta; cbn [fold_left].
  - rewrite app_nil_r. repeat split; auto; [intros [H|[p [[] _]]]; exact H].
  - match goal with |- context [fold_left ?f fs ?a0] => pose proof (IH a0) as H end.
    cbv zeta in H. destruct H as [Hc [Ht [Hf [Hcl [Hs Hm]]]]].
    rewrite Hc, Ht, Hf, Hcl, Hs. setoid_rewrite Hm. args_cbn.
    repeat split; auto.
    + rewrite <- List.app_assoc. simpl. do 3 f_equal.
      unfold folder_to_line. rewrite StrFacts.app_assoc. reflexivity.
    + rewrite set_add_spec. intros [[H| ->]|[p [Hp ->]]];
        [left; exact H | right; exists d; simpl; auto | right; exists p; simpl; auto].
    + rewrite set_add_spec. intros [H|[p [[<-|Hp] ->]]];
        [left; left; exact H | left; right; reflexivity | right; exists p; auto].
Qed.

Lemma get_in_commands_files :
  forall fs a,
    let r := fold_left (fun a min_file =>
               let '(a, mv) := move_to' a min_file false EmptyString in
               set_move_to a (move_to a ++ mv)%list) fs a in
    config r = config a /\
    move_to r = (move_to a ++ map file_to_line fs)%list /\
    move_from r = move_from a /\ clear r = clear a /\ scratching r = scratching a /\
    (forall x, In x (mkdir r) <->
               In x (mkdir a) \/ exists p, In p fs /\ x = "mkdir -p " ++ dirname (scratch_of p)).
Proof.
  induction fs as [|f fs IH]; intros a; cbv zeta; cbn [fold_left].
  - rewrite app_nil_r. repeat split; auto; [intros [H|[p [[] _]]]; exact H].
  - match goal with |- context [fold_left ?f fs ?a0] => pose proof (IH a0) as H end.
    cbv zeta in H. destruct H as [Hc [Ht [Hf [Hcl [Hs Hm]]]]].
    rewrite Hc, Ht, Hf, Hcl, Hs. setoid_rewrite Hm. args_cbn.
    repeat split; auto.
    + rewrite <- List.app_assoc. simpl. do 3 f_equal.
      unfold file_to_line. rewrite StrFacts.app_empty_r. reflexivity.
    + rewrite set_add_spec. intros [[H| ->]|[p [Hp ->]]];
        [left; exact H | right; exists f; simpl; auto | right; exists p; simpl; auto].
    + rewrite set_add_spec. intros [H|[p [[<-|Hp] ->]]];
        [left; left; exact H | left; right; reflexivity | right; exists p; auto].
Qed.

(** [get_in_commands] appends to [move_to], after the lines already there,
    one [rsync] per minimal folder (contents, with the exclude suffix) and
    then one per minimal file (no suffix); it adds to [mkdir] the scratch
    parent of each of these paths and changes nothing else. *)
Lemma get_in_commands_facts (a : args) (mp : min_paths) (ex : string) :
  let r := get_in_commands a mp ex in
  config r = config a /\
  move_to r = (move_to a ++ map (fun d => folder_to_line d ex) (min_folders mp)
               ++ map file_to_line (min_files mp))%list /\
  move_from r = move_from a /\ clear r = clear a /\ scratching r = scratching a /\
  (forall x, In x (mkdir r) <->
     In x (mkdir a) \/
     exists p, In p (min_folders mp ++ min_files mp)%list /\
               x = "mkdir -p " ++ dirname (scratch_of p)).
Proof.
  cbv zeta. unfold get_in_commands.
  pose proof (get_in_commands_folders ex (min_folders mp) a) as H1.
  cbv zeta in H1. destruct H1 as [Hc1 [Ht1 [Hf1 [Hcl1 [Hs1 Hm1]]]]].
  match goal with |- context [fold_left ?f (min_files mp) ?a1] =>
    pose proof (get_in_commands_files (min_files mp) a1) as H2 end.
  cbv zeta in H2. destruct H2 as [Hc2 [Ht2 [Hf2 [Hcl2 [Hs2 Hm2]]]]].
  rewrite Hc2, Ht2, Hf2, Hcl2, Hs2, Hc1, Ht1, Hf1, Hcl1, Hs1, List.app_assoc.
  do 5 (split; [auto|]).
  intros x. rewrite Hm2, Hm1. split.
  - intros [[H|[p [Hp ->]]]|[p [Hp ->]]];
      [left; exact H | right; exists p; split; [apply in_or_app; left|]; auto
      | right; exists p; split; [apply in_or_app; right|]; auto].
  - intros [H|[p [Hp ->]]]; [left; left; exact H|].
    apply in_app_or in Hp as [Hp|Hp]; [left; right|right]; exists p; auto.
Qed.

(** [get_out_commands] changes only [move_from] and [mkdir], where it
    adds [mkdir -p d] for each minimal folder [d]. *)
Lemma get_out_commands_others (a : args) (mp : min_paths) (io : in_out) :
  let r := get_out_commands a mp io in
  config r = config a /\ move_to r = move_to a /\ clear r = clear a /\
  scratching r = scratching a /\
  (forall x, In x (mkdir r) <->
     In x (mkdir a) \/ exists d, In d (min_folders mp) /\ x = "mkdir -p " ++ d).
Proof.
  cbv zeta. unfold get_out_commands.
  assert (Hout : forall ps b,
    let r := fold_left (fun a path =>
               set_move_from a (move_from a ++ out_back_lines path)%list) ps b in
    config r = config b /\ move_to r = move_to b /\ clear r = clear b /\
    scratching r = scratching b /\ mkdir r = mkdir b).
  { induction ps as [|p ps IH]; intros b; cbv zeta; cbn [fold_left]; [auto|].
    match goal with |- context [fold_left ?f ps ?b0] => pose proof (IH b0) as H end.
    cbv zeta in H. destruct H as [H1 [H2 [H3 [H4 H5]]]].
    rewrite H1, H2, H3, H4, H5. args_cbn. auto. }
  assert (Hfold : forall fs b,
    let r := fold_left (fun a folder =>
               let a := mkdir_add ("mkdir -p " ++ folder) a in
               move_from_append (folder_back_line folder) a) fs b in
    config r = config b /\ move_to r = move_to b /\ clear r = clear b /\
    scratching r = scratching b /\
    (forall x, In x (mkdir r) <->
       In x (mkdir b) \/ exists d, In d fs /\ x = "mkdir -p " ++ d)).
  { induction fs as [|d fs IH]; intros b; cbv zeta; cbn [fold_left].
    - repeat split; auto; [intros [H|[d [[] _]]]; exact H].
    - match goal with |- context [fold_left ?f fs ?b0] => pose proof (IH b0) as H end.
      cbv zeta in H. destruct H as [H1 [H2 [H3 [H4 H5]]]].
      rewrite H1, H2, H3, H4. setoid_rewrite H5. args_cbn.
      repeat split; auto.
      + rewrite set_add_spec. intros [[H| ->]|[p [Hp ->]]];
          [left; exact H | right; exists d; simpl; auto | right; exists p; simpl; auto].
      + rewrite set_add_spec. intros [H|[p [[<-|Hp] ->]]];
          [left; left; exact H | left; right; reflexivity | right; exists p; auto]. }
  match goal with |- context [fold_left ?f (out io) ?b0] =>
    pose proof (Hout (out io) b0) as H end.
  cbv zeta in H. destruct H as [H1 [H2 [H3 [H4 H5]]]].
  rewrite H1, H2, H3, H4, H5. apply Hfold.
Qed.

Lemma set_update_spec (xs s : list string) (x : string) :
  In x (set_update xs s) <-> In x s \/ In x xs.
Proof.
  unfold set_update.
  rewrite (fold_union_spec _ (fun y x => x = y)).
  - split; intros [H|H]; auto.
    + destruct H as [y [Hy ->]]. auto.
    + right. exists x. auto.
  - intros ex y z. rewrite set_add_spec. tauto.
Qed.

(** The include loop keeps the configuration, collects the absolute path
    of each include that is a directory, and adds the two [mkdir] lines
    for each. *)
Lemma include_fold_more (isdir : string -> bool) (abspath : string -> string) :
  forall incs a inc m_to m_from,
    let r := fold_left (include_step isdir abspath) incs (a, inc, m_to, m_from) in
    config (fst (fst (fst r))) = config a /\
    (forall x, In x (snd (fst (fst r))) <->
       In x inc \/ exists f, In f incs /\ isdir f = true /\ x = abspath f) /\
    (forall x, In x (mkdir (fst (fst (fst r)))) <->
       In x (mkdir a) \/
       exists f, In f incs /\ isdir f = true /\
                 (x = "mkdir -p " ++ dirname (scratch_of (abspath f)) \/
                  x = "mkdir -p " ++ abspath f)).
Proof.
  induction incs as [|f incs IH]; intros a inc m_to m_from; cbv zeta.
  - simpl. repeat split; auto; intros [H|[f [[] _]]]; exact H.
  - change (fold_left (include_step isdir abspath) (f :: incs) (a, inc, m_to, m_from))
      with (fold_left (include_step isdir abspath) incs
              (include_step isdir abspath (a, inc, m_to, m_from) f)).
    destruct (isdir f) eqn:Hd.
    + rewrite (include_step_dir _ _ _ _ _ _ _ Hd).
      match goal with |- context [fold_left _ incs (?b, ?i, ?t, ?m)] =>
        destruct (IH b i t m) as [H1 [H2 H3]] end.
      rewrite H1. setoid_rewrite H2. setoid_rewrite H3. args_cbn.
      setoid_rewrite set_update_spec. setoid_rewrite set_add_spec.
      repeat split; auto.
      * intros [[H| ->]|[g [Hg [Hgd ->]]]]; [left; exact H | right; exists f; simpl; auto
          | right; exists g; simpl; auto].
      * intros [H|[g [[<-|Hg] [Hgd ->]]]]; [left; left; exact H | left; right; reflexivity
          | right; exists g; auto].
      * intros [[H|[<-|[<-|[]]]]|[g [Hg [Hgd Hx]]]];
          [left; exact H | right; exists f; simpl; auto | right; exists f; simpl; auto
          | right; exists g; simpl; auto].
      * intros [H|[g [[<-|Hg] [Hgd Hx]]]];
          [left; left; exact H | left; right; simpl; destruct Hx; auto
          | right; exists g; auto].
    + rewrite (include_step_skip _ _ _ _ _ _ _ Hd).
      destruct (IH a inc m_to m_from) as [H1 [H2 H3]].
      rewrite H1. setoid_rewrite H2. setoid_rewrite H3.
      repeat split; auto.
      * intros [H|[g [Hg [Hgd ->]]]]; [left; exact H | right; exists g; simpl; auto].
      * intros [H|[g [[<-|Hg] [Hgd ->]]]]; [left; exact H | congruence | right; exists g; auto].
      * intros [H|[g [Hg [Hgd Hx]]]]; [left; exact H | right; exists g; simpl; auto].
      * intros [H|[g [[<-|Hg] [Hgd Hx]]]]; [left; exact H | congruence | right; exists g; auto].
Qed.

Lemma include_fold_clear (isdir : string -> bool) (abspath : string -> string) :
  forall incs a inc m_to m_from,
    let a' := fst (fst (fst (fold_left (include_step isdir abspath) incs
                                      (a, inc, m_to, m_from)))) in
    clear a' = clear a /\ scratching a' = scratching a.
Proof.
  induction incs as [|f incs IH]; intros a inc m_to m_from; cbv zeta; [auto|].
  change (fold_left (include_step isdir abspath) (f :: incs) (a, inc, m_to, m_from))
    with (fold_left (include_step isdir abspath) incs
            (include_step isdir abspath (a, inc, m_to, m_from) f)).
  destruct (isdir f) eqn:Hd.
  - rewrite (include_step_dir _ _ _ _ _ _ _ Hd).
    match goal with |- context [fold_left _ incs (?a0, ?i0, ?t0, ?f0)] =>
      destruct (IH a0 i0 t0 f0) as [E1 E2] end.
    rewrite E1, E2. split; reflexivity.
  - rewrite (include_step_skip _ _ _ _ _ _ _ Hd). apply IH.
Qed.

Lemma include_commands_facts (isdir : string -> bool) (abspath : string -> string)
    (a : args) :
  let r := get_include_commands isdir abspath a in
  let dirs := map abspath (filter isdir (include a)) in
  config (fst r) = config a /\ clear (fst r) = clear a /\
  scratching (fst r) = scratching a /\
  move_to (fst r) = (move_to a ++ include_to_cmds dirs)%list /\
  move_from (fst r) = (move_from a ++ include_from_cmds dirs)%list /\
  (forall x, In x (snd r) <-> In x dirs) /\
  (forall x, In x (mkdir (fst r)) <->
     In x (mkdir a) \/
     exists d, In d dirs /\ (x = "mkdir -p " ++ dirname (scratch_of d) \/
                             x = "mkdir -p " ++ d)).
Proof.
  cbv zeta. unfold get_include_commands. destruct (include a) as [|f incs] eqn:Hinc.
  - simpl. rewrite !app_nil_r. repeat split; auto; try tauto.
    intros [H|[d [[] _]]]; exact H.
  - pose proof (include_fold_spec isdir abspath (f :: incs) a [] [] []) as Hf.
    pose proof (include_fold_more isdir abspath (f :: incs) a [] [] []) as Hm.
    pose proof (include_fold_clear isdir abspath (f :: incs) a [] [] []) as Hcl.
    cbv zeta in Hf, Hm.
    assert (Hdirs : forall x, (exists g, In g (f :: incs) /\ isdir g = true /\ x = abspath g)
                              <-> In x (map abspath (filter isdir (f :: incs)))).
    { intros x. rewrite in_map_iff. setoid_rewrite filter_In. firstorder. }
    assert (Hdirs2 : forall x,
      (exists g, In g (f :: incs) /\ isdir g = true /\
         (x = "mkdir -p " ++ dirname (scratch_of (abspath g)) \/ x = "mkdir -p " ++ abspath g))
      <-> exists d, In d (map abspath (filter isdir (f :: incs))) /\
           (x = "mkdir -p " ++ dirname (scratch_of d) \/ x = "mkdir -p " ++ d)).
    { intros x. setoid_rewrite in_map_iff. setoid_rewrite filter_In. split.
      - intros [g [Hg [Hgd Hx]]]. exists (abspath g). eauto.
      - intros [d [[g [<- [Hg Hgd]]] Hx]]. eauto. }
    remember (map abspath (filter isdir (f :: incs))) as dirs eqn:Hd.
    destruct (fold_left (include_step isdir abspath) (f :: incs) (a, [], [], []))
      as [[[a1 inc1] mt1] mf1] eqn:Hr.
    cbv zeta in Hcl. cbn [fst snd] in Hf, Hm, Hcl.
    destruct Hf as [H1 [H2 [H3 H4]]]. subst mt1 mf1.
    destruct Hm as [Hc [Hi Hk]]. destruct Hcl as [Hcl Hsc].
    unfold include_to_cmds, include_from_cmds. cbn [app].
    destruct dirs as [|d ds]; cbn [map fst snd]; args_cbn.
    + rewrite H1, H2, Hc, Hcl, Hsc, !app_nil_r.
      repeat split; auto; rewrite ?Hi, ?Hk, <- ?Hdirs, <- ?Hdirs2; firstorder.
    + unfold config in Hc |- *. args_cbn. rewrite H1, H2, Hc, Hcl, Hsc.
      repeat split; auto; rewrite ?Hi, ?Hk, <- ?Hdirs, <- ?Hdirs2; firstorder.
Qed.

Lemma config_inv (b c : args) :
  config b = config c ->
  include b = include c /\ exclude b = exclude c /\ torque b = torque c /\
  clear_scratch b = clear_scratch c /\ paths b = paths c.
Proof. unfold config. intros H. injection H. intros. repeat split; assumption. Qed.

Lemma difference_ext (s t1 t2 : list string) :
  (forall x, In x s -> (In x t1 <-> In x t2)) -> difference s t1 = difference s t2.
Proof.
  intros H. unfold difference. apply filter_ext_in. intros x Hx. f_equal.
  apply Bool.eq_true_iff_eq. rewrite !mem_spec. auto.
Qed.

(** [get_min_folders] depends on [included] only through its elements. *)
Lemma get_min_folders_included_ext (folders i1 i2 : list string) :
  (forall x, In x i1 <-> In x i2) ->
  get_min_folders folders i1 = get_min_folders folders i2.
Proof.
  intros H. unfold get_min_folders. apply difference_ext. intros x _.
  rewrite !include_excludes_spec. setoid_rewrite H. tauto.
Qed.

(** [get_scratching_commands] writes [scratching] and nothing else. *)
Lemma scratching_only (a : args) :
  exists v, get_scratching_commands a = set_scratching a v.
Proof.
  unfold get_scratching_commands.
  destruct (truthy (scratch a) || truthy (userscratch a) || truthy (localscratch a)).
  - eexists. reflexivity.
  - cbn [scratching_append torque set_scratching]. destruct (torque a); eexists; reflexivity.
Qed.

Lemma get_clearing_commands_facts (a : args) :
  let r := get_clearing_commands a in
  config r = config a /\ scratching r = scratching a /\ mkdir r = mkdir a /\
  move_to r = move_to a /\ move_from r = move_from a /\
  clear r = (clear a ++
             if clear_scratch a then
               [(nl ++ "# Move away and clear the scratch area")%string;
                if torque a then "cd ${PBS_O_WORKDIR}" else "cd ${SLURM_SUBMIT_DIR}";
                "rm -rf ${SCRATCH_DIR}"]
             else [])%list.
Proof.
  cbv zeta. unfold get_clearing_commands.
  destruct (clear_scratch a); [|rewrite app_nil_r; repeat split; reflexivity].
  cbn [clear_append torque set_clear].
  destruct (torque a); repeat split; args_cbn; rewrite <- ?List.app_assoc; reflexivity.
Qed.

(** End to end, with [move] set: [get_relocation] first resets the five
    command lists, so its output depends only on the configuration and on
    the filesystem probes.  [move_to] has the include block, then one sync
    per minimal folder (with the [--exclude] suffix) and per minimal file;
    [move_from] has the include block, one sync-back per minimal folder and
    the guarded lines of each pending output; [clear] has the clearing
    block exactly when [clear_scratch] is set. *)
Theorem get_relocation_move_spec (isfile isdir : string -> bool)
    (abspath : string -> string) (a : args) (Hm : move a = true) :
  let r := get_relocation isfile isdir abspath a in
  let dirs := map abspath (filter isdir (include a)) in
  let io := get_in_out isfile isdir (paths a) in
  let mp := get_min_paths io dirs in
  config r = config a /\
  move_to r = (include_to_cmds dirs
               ++ map (fun d => folder_to_line d (get_exclude a)) (min_folders mp)
               ++ map file_to_line (min_files mp))%list /\
  move_from r = (include_from_cmds dirs ++ map folder_back_line (min_folders mp)
                 ++ flat_map out_back_lines (out io))%list /\
  clear r = (if clear_scratch a then
               [(nl ++ "# Move away and clear the scratch area")%string;
                if torque a then "cd ${PBS_O_WORKDIR}" else "cd ${SLURM_SUBMIT_DIR}";
                "rm -rf ${SCRATCH_DIR}"]
             else []) /\
  (forall x, In x (mkdir r) <->
     (exists d, In d dirs /\ (x = "mkdir -p " ++ dirname (scratch_of d) \/
                              x = "mkdir -p " ++ d)) \/
     (exists p, In p (min_folders mp ++ min_files mp)%list /\
                x = "mkdir -p " ++ dirname (scratch_of p)) \/
     (exists d, In d (min_folders mp) /\ x = "mkdir -p " ++ d)).
Proof.
  cbv zeta. unfold get_relocation.
  assert (Hm0 : move (set_clear (set_move_from (set_move_to
                  (set_mkdir (set_scratching a []) []) []) []) []) = true)
    by exact Hm.
  rewrite Hm0. clear Hm0.
  match goal with |- context [get_scratching_commands ?b] =>
    destruct (scratching_only b) as [v Hv]; rewrite Hv; clear Hv end.
  match goal with |- context [get_relocating_commands isfile isdir abspath ?b] =>
    assert (Hc1 : config b = config a) by reflexivity;
    assert (Ht1 : move_to b = []) by reflexivity;
    assert (Hf1 : move_from b = []) by reflexivity;
    assert (Hcl1 : clear b = []) by reflexivity;
    assert (Hk1 : mkdir b = []) by reflexivity;
    generalize dependent b end.
  intros a1 Hc1 Ht1 Hf1 Hcl1 Hk1.
  unfold get_relocating_commands.
  pose proof (include_commands_facts isdir abspath a1) as HI. cbv zeta in HI.
  destruct (get_include_commands isdir abspath a1) as [a2 inc] eqn:Hinc.
  cbn [fst snd] in HI. destruct HI as [Hc2 [Hcl2 [_ [Ht2 [Hf2 [Hi2 Hk2]]]]]].
  destruct (config_inv _ _ Hc1) as [Ei1 _].
  rewrite Ei1, Ht1, Hf1, Hcl1 in *. cbn [app] in Ht2, Hf2.
  rewrite Hc1 in Hc2.
  destruct (config_inv _ _ Hc2) as [_ [Ee2 [_ [_ Ep2]]]].
  assert (Hex : get_exclude a2 = get_exclude a) by (unfold get_exclude; rewrite Ee2; reflexivity).
  rewrite Hex, Ep2.
  assert (Hmp : get_min_paths (get_in_out isfile isdir (paths a)) inc =
                get_min_paths (get_in_out isfile isdir (paths a))
                  (map abspath (filter isdir (include a)))).
  { unfold get_min_paths. rewrite (get_min_folders_included_ext _ _ _ Hi2). reflexivity. }
  rewrite Hmp. clear Hmp.
  set (io := get_in_out isfile isdir (paths a)).
  set (mp := get_min_paths io (map abspath (filter isdir (include a)))).
  set (dirs := map abspath (filter isdir (include a))) in *.
  pose proof (get_in_commands_facts a2 mp (get_exclude a)) as HC. cbv zeta in HC.
  destruct HC as [Hc3 [Ht3 [Hf3 [Hcl3 [_ Hk3]]]]].
  set (a3 := get_in_commands a2 mp (get_exclude a)) in *.
  pose proof (get_out_commands_others a3 mp io) as HO. cbv zeta in HO.
  destruct HO as [Hc4 [Ht4 [Hcl4 [_ Hk4]]]].
  pose proof (get_out_commands_move_from a3 mp io) as Hf4.
  set (a4 := get_out_commands a3 mp io) in *.
  pose proof (get_clearing_commands_facts a4) as HL. cbv zeta in HL.
  destruct HL as [Hc5 [_ [Hk5 [Ht5 [Hf5 Hcl5]]]]].
  rewrite Hc3, Hc2 in Hc4.
  destruct (config_inv _ _ Hc4) as [_ [_ [Eto [Ecs _]]]].
  rewrite Hc5, Hc4, Ht5, Ht4, Ht3, Ht2, Hf5, Hf4, Hf3, Hf2, Hcl5, Hcl4, Hcl3, Hcl2,
    Eto, Ecs.
  split; [reflexivity|].
  split; [reflexivity|].
  split; [rewrite List.app_assoc; reflexivity|].
  split; [reflexivity|].
  intros x. rewrite Hk5, Hk4, Hk3, Hk2, Hk1. cbn [In]. tauto.
Qed.

Lemma get_min_files_mem (fs min_fs : list string) (f : string) :
  In f (get_min_files fs min_fs) <->
  In f fs /\ ~ (exists d, In d min_fs /\ contains d (dirname f) = true).
Proof.
  unfold get_min_files.
  rewrite (fold_union_spec _
    (fun f1 x => x = f1 /\
       existsb (fun f2 => contains f2 (dirname f1)) min_fs = false)).
  - split.
    + intros [[]|[f1 [Hf1 [-> Hno]]]]. split; [exact Hf1|].
      intros Hex. apply existsb_exists in Hex. congruence.
    + intros [Hf Hno]. right. exists f. split; [exact Hf|]. split; [reflexivity|].
      apply not_true_iff_false. intros Hex. apply Hno.
      apply existsb_exists in Hex. exact Hex.
  - intros ex f1 x.
    destruct (existsb (fun f2 => contains f2 (dirname f1)) min_fs).
    + intuition discriminate.
    + rewrite set_add_spec. intuition.
Qed.

(** Every folder passed to [get_min_folders] either occurs in (is
    [contains]-covered by) a folder it keeps, or contains an include
    path. *)
Lemma get_min_folders_cover (folders included : list string) :
  forall p, In p folders ->
  (exists d, In d (get_min_folders folders included) /\ contains d p = true) \/
  (exists i, In i included /\ contains i p = true).
Proof.
  assert (Hn : forall n p, String.length p < n -> In p folders ->
    (exists d, In d (get_min_folders folders included) /\ contains d p = true) \/
    (exists i, In i included /\ contains i p = true)).
  { induction n as [|n IH]; intros p Hlt Hp; [lia|].
    destruct (existsb (fun i => contains i p) included) eqn:Hi.
    { apply existsb_exists in Hi. right. exact Hi. }
    destruct (existsb (fun f1 => negb (String.eqb f1 p) && String.leb f1 p
                                 && contains f1 p) folders) eqn:Hf.
    - apply existsb_exists in Hf as [f1 [Hf1 Hc]].
      apply andb_true_iff in Hc as [Hc Hc3]. apply andb_true_iff in Hc as [Hne _].
      apply negb_true_iff, String.eqb_neq in Hne.
      pose proof (contains_proper_lt _ _ Hc3 Hne) as Hl.
      destruct (IH f1 ltac:(lia) Hf1) as [[d [Hd Hdc]]|[i [Hin Hic]]].
      + left. exists d. split; [exact Hd|]. eapply contains_trans; eauto.
      + right. exists i. split; [exact Hin|]. eapply contains_trans; eauto.
    - left. exists p. split; [|apply contains_refl].
      apply get_min_folders_spec. split; [exact Hp|]. split.
      + intros [f1 [Hf1 [Hne [Hle Hc]]]].
        assert (Hx : existsb (fun f1 => negb (String.eqb f1 p) && String.leb f1 p
                                        && contains f1 p) folders = true).
        { apply existsb_exists. exists f1. split; [exact Hf1|].
          rewrite Hle, Hc. apply String.eqb_neq in Hne. rewrite Hne. reflexivity. }
        congruence.
      + intros Hx. apply existsb_exists in Hx. congruence. }
  intros p. apply (Hn (S (String.length p))). lia.
Qed.

(** What [get_min_paths] never drops: every existing file of the paths
    is synced itself or lies in (by [contains] on its dirname) a synced
    minimal folder; every existing folder is covered by a synced minimal
    folder or contains an include path (synced by the include block). *)
Theorem get_min_paths_cover (isfile isdir : string -> bool) (ps included : list string)
    (x : string) (Hx : In x ps) :
  let io := get_in_out isfile isdir ps in
  let mp := get_min_paths io included in
  (isfile x = true ->
   In x (min_files mp) \/
   exists d, In d (min_folders mp) /\ contains d (dirname x) = true) /\
  (isfile x = false -> isdir x = true ->
   (exists d, In d (min_folders mp) /\ contains d x = true) \/
   (exists i, In i included /\ contains i x = true)).
Proof.
  cbv zeta. unfold get_min_paths. cbn [min_files min_folders].
  destruct (get_in_out_fold isfile isdir ps (mk_in_out [] [] []) x) as [Hf [Hd _]].
  fold (get_in_out isfile isdir ps) in Hf, Hd. cbn [files folders In] in Hf, Hd.
  split.
  - intros Hfile. rewrite get_min_files_mem.
    destruct (existsb (fun d => contains d (dirname x))
                (get_min_folders (folders (get_in_out isfile isdir ps)) included)) eqn:He.
    + right. apply existsb_exists in He. exact He.
    + left. split; [apply Hf; auto|].
      intros Hex. apply existsb_exists in Hex. congruence.
  - intros Hnf Hdir. apply get_min_folders_cover. apply Hd. auto.
Qed.

(** With no minimal folder, [get_min_files] keeps every file, in order. *)
Theorem get_min_files_no_folders (fs : list string) (Hnd : NoDup fs) :
  get_min_files fs [] = fs.
Proof.
  unfold get_min_files. cbn [existsb].
  assert (H : forall l acc, NoDup (acc ++ l) ->
            fold_left (fun m f1 => set_add f1 m) l acc = (acc ++ l)%list).
  { induction l as [|y l IH]; intros acc Hnd'; simpl; [now rewrite app_nil_r|].
    unfold set_add. destruct (mem y acc) eqn:Hm.
    - apply mem_spec in Hm. apply NoDup_remove_2 in Hnd'.
      exfalso. apply Hnd'. apply in_or_app. left. exact Hm.
    - rewrite IH; [now rewrite <- List.app_assoc|].
      now rewrite <- List.app_assoc. }
  exact (H fs [] Hnd).
Qed.

(** [get_relocation] depends only on the configuration keys: whatever
    the five command lists held before, they are reset first. *)
Theorem get_relocation_config_only (isfile isdir : string -> bool)
    (abspath : string -> string) (a b : args) (Hab : config a = config b) :
  get_relocation isfile isdir abspath a = get_relocation isfile isdir abspath b.
Proof.
  destruct a, b. unfold config in Hab. cbn in Hab.
  injection Hab. intros. subst. reflexivity.
Qed.

(** * Stated properties of the remaining functions *)

(** [get_include_commands] keeps the configuration, [clear] and
    [scratching]; it appends the include block to [move_to] and
    [move_from], returns the existing include folders (as absolute
    paths) as [included], and registers two [mkdir -p] lines for each. *)
Theorem get_include_commands_spec (isdir : string -> bool)
    (abspath : string -> string) (a : args) :
  let r := get_include_commands isdir abspath a in
  let dirs := map abspath (filter isdir (include a)) in
  config (fst r) = config a /\ clear (fst r) = clear a /\
  scratching (fst r) = scratching a /\
  move_to (fst r) = (move_to a ++ include_to_cmds dirs)%list /\
  move_from (fst r) = (move_from a ++ include_from_cmds dirs)%list /\
  (forall x, In x (snd r) <-> In x dirs) /\
  (forall x, In x (mkdir (fst r)) <->
     In x (mkdir a) \/
     exists d, In d dirs /\ (x = "mkdir -p " ++ dirname (scratch_of d) \/
                             x = "mkdir -p " ++ d)).
Proof. exact (include_commands_facts isdir abspath a). Qed.

(** [get_in_commands] appends one sync line per minimal folder (with
    the exclude suffix) then one per minimal file to [move_to], registers
    the parent of each scratch destination in [mkdir], and touches
    nothing else. *)
Theorem get_in_commands_lines (a : args) (mp : min_paths) (ex : string) :
  let r := get_in_commands a mp ex in
  config r = config a /\
  move_to r = (move_to a ++ map (fun d => folder_to_line d ex) (min_folders mp)
               ++ map file_to_line (min_files mp))%list /\
  move_from r = move_from a /\ clear r = clear a /\ scratching r = scratching a /\
  (forall x, In x (mkdir r) <->
     In x (mkdir a) \/
     exists p, In p (min_folders mp ++ min_files mp)%list /\
               x = "mkdir -p " ++ dirname (scratch_of p)).
Proof. exact (get_in_commands_facts a mp ex). Qed.

(** [get_out_commands] appends one sync-back line per minimal folder and
    two guarded lines per pending output to [move_from], adds
    [mkdir -p d] for each minimal folder [d], and touches nothing else. *)
Theorem get_out_commands_spec (a : args) (mp : min_paths) (io : in_out) :
  let r := get_out_commands a mp io in
  config r = config a /\ move_to r = move_to a /\ clear r = clear a /\
  scratching r = scratching a /\
  move_from r = (move_from a ++ map folder_back_line (min_folders mp)
                 ++ flat_map out_back_lines (out io))%list /\
  (forall x, In x (mkdir r) <->
     In x (mkdir a) \/ exists d, In d (min_folders mp) /\ x = "mkdir -p " ++ d).
Proof.
  cbv zeta. destruct (get_out_commands_others a mp io) as [H1 [H2 [H3 [H4 H5]]]].
  repeat split; auto; [apply get_out_commands_move_from | apply H5 | apply H5].
Qed.


(** The minimal folders depend on the include overrides only as a set:
    order and duplicates do not matter. *)
Theorem get_min_folders_include_set (folders i1 i2 : list string)
    (H : forall x, In x i1 <-> In x i2) :
  get_min_folders folders i1 = get_min_folders folders i2.
Proof. exact (get_min_folders_included_ext folders i1 i2 H). Qed.

(** * Witnesses *)

(** A job with [move] and [clear_scratch] set: one include folder, an
    existing folder, a file in it and a pending output. *)
Definition w_args : args :=
  mk_args "X" ["/inc"] ["*.tmp"] None (Some "/scratch") None false true true
    ["/d"; "/d/f.txt"; "/o"] ["old"] ["old"] ["old"] ["old"] ["old"].
Definition w_isfile (s : string) : bool := String.eqb s "/d/f.txt".
Definition w_isdir (s : string) : bool := String.eqb s "/inc" || String.eqb s "/d".
Definition w_abspath (s : string) : string := s.

Lemma get_relocation_move_spec_witness :
  move w_args = true /\
  move_from (get_relocation w_isfile w_isdir w_abspath w_args) =
  (include_from_cmds ["/inc"] ++ map folder_back_line ["/d"]
   ++ flat_map out_back_lines ["/o"])%list.
Proof.
  split; [reflexivity|].
  pose proof (get_relocation_move_spec w_isfile w_isdir w_abspath w_args
                ltac:(reflexivity)) as H.
  cbv zeta in H. destruct H as [_ [_ [H _]]]. rewrite H. vm_compute. reflexivity.
Defined.

Lemma get_min_paths_cover_witness :
  In "/d/f.txt" (paths w_args) /\
  (In "/d/f.txt" (min_files (get_min_paths (get_in_out w_isfile w_isdir (paths w_args))
                                           ["/inc"])) \/
   exists d, In d (min_folders (get_min_paths (get_in_out w_isfile w_isdir (paths w_args))
                                              ["/inc"])) /\
             contains d (dirname "/d/f.txt") = true).
Proof.
  split; [simpl; auto|].
  pose proof (get_min_paths_cover w_isfile w_isdir (paths w_args) ["/inc"] "/d/f.txt"
                ltac:(simpl; auto)) as H.
  cbv zeta in H. apply (proj1 H). reflexivity.
Defined.

Lemma get_min_files_no_folders_witness :
  NoDup ["/a.txt"; "/b/c.txt"] /\ get_min_files ["/a.txt"; "/b/c.txt"] [] = ["/a.txt"; "/b/c.txt"].
Proof.
  assert (Hnd : NoDup ["/a.txt"; "/b/c.txt"]).
  { constructor; [simpl; intros [H|[]]; discriminate|].
    constructor; [simpl; tauto|constructor]. }
  split; [exact Hnd|]. exact (get_min_files_no_folders _ Hnd).
Defined.

Lemma get_relocation_config_only_witness :
  config w_args = config (set_move_to (set_clear w_args []) ["stale"]) /\
  get_relocation w_isfile w_isdir w_abspath w_args =
  get_relocation w_isfile w_isdir w_abspath (set_move_to (set_clear w_args []) ["stale"]).
Proof.
  split; [reflexivity|].
  apply get_relocation_config_only. reflexivity.
Defined.

Lemma get_min_folders_include_set_witness :
  (forall x, In x ["/b"; "/a"; "/b"] <-> In x ["/a"; "/b"]) /\
  get_min_folders ["/a/1"; "/b/2"; "/c"] ["/b"; "/a"; "/b"] =
  get_min_folders ["/a/1"; "/b/2"; "/c"] ["/a"; "/b"].
Proof.
  assert (H : forall x, In x ["/b"; "/a"; "/b"] <-> In x ["/a"; "/b"]) by (simpl; tauto).
  split; [exact H|]. exact (get_min_folders_include_set _ _ _ H).
Defined.
